(** * A shallow embedding of [tools/custom_built/simple_port_scanner.go]

    The program is a single [main]: a [for] loop over the ports 20..1024
    that dials [target:port] over TCP with a one second timeout, prints
    [Port <N> open] when the dial returned no error, and closes the
    connection.

    The network, standard output and the sockets are the program's
    environment.  They are modelled by an abstract world [W] with one
    transition per library call the program makes ([net.DialTimeout],
    [fmt.Printf], [conn.Close]); the program threads the world through its
    calls and every call is logged in a trace of events, in the order the
    calls are made. *)

From Stdlib Require Import ZArith List Sorted String Ascii Bool Lia.
From Stdlib Require Import DecimalString DecimalZ.
Import ListNotations.
Open Scope Z_scope.

(** ** The pieces of the Go runtime and library the program uses *)

Module Go.

(** [int] is a 64-bit two's complement integer; [port++] wraps. *)
Definition min_int : Z := - 2 ^ 63.
Definition max_int : Z := 2 ^ 63 - 1.
Definition wrap_int (z : Z) : Z := (z + 2 ^ 63) mod 2 ^ 64 - 2 ^ 63.

(** [time.Duration] counts nanoseconds in an [int64]. *)
Definition Duration : Type := Z.
Definition Second : Duration := 1000000000.

(** The line feed the format string writes as [\n]. *)
Definition nl : string := String (ascii_of_nat 10) EmptyString.

(** The verb [%d] on an [int]: decimal digits, [-] before a negative
    number. *)
Definition fmt_d (z : Z) : string := NilZero.string_of_int (Z.to_int z).

(** The errors a dial can return.  The program only compares the error
    with [nil]. *)
Inductive error : Type :=
| ErrTimeout
| ErrRefused
| ErrNoSuchHost
| ErrUnreachable
| ErrOther (msg : string).

End Go.

Import Go.

(** ** Events and the environment *)

(** What [net.DialTimeout] returns: a connection ([net.Conn]) and a [nil]
    error, or an error. *)
Definition DialResult (Conn : Type) : Type := (Conn + error)%type.

Definition err_is_nil {Conn : Type} (r : DialResult Conn) : bool :=
  match r with inl _ => true | inr _ => false end.

(** The operations a program can perform on a connection. *)
Inductive ConnOp : Type :=
| OpRead (n : nat)
| OpWrite (data : string)
| OpClose.

(** The calls a program makes to its environment. *)
Inductive Event (Conn : Type) : Type :=
| EvDial (network address : string) (timeout : Duration)
         (res : DialResult Conn)
| EvStdout (s : string)
| EvConn (c : Conn) (op : ConnOp).

Arguments EvDial {Conn} network address timeout res.
Arguments EvStdout {Conn} s.
Arguments EvConn {Conn} c op.

(** The environment: one transition of the world [W] per library call. *)
Record OS (W Conn : Type) : Type := {
  net_DialTimeout : string -> string -> Duration -> W -> DialResult Conn * W;
  stdout_Write : string -> W -> W;
  conn_Close : Conn -> W -> W
}.

Arguments net_DialTimeout {W Conn} o network address timeout w.
Arguments stdout_Write {W Conn} o s w.
Arguments conn_Close {W Conn} o c w.

(** The state the program threads: the world and the calls made so far,
    oldest first. *)
Record St (W Conn : Type) : Type := { world : W; trace : list (Event Conn) }.

Arguments Build_St {W Conn} world trace.
Arguments world {W Conn} s.
Arguments trace {W Conn} s.

(** A finished process: its last state and its exit status. *)
Record Exit (W Conn : Type) : Type := { final : St W Conn; status : Z }.

Arguments Build_Exit {W Conn} final status.
Arguments final {W Conn} e.
Arguments status {W Conn} e.

(** [fmt.Sprintf("%s:%d", target, port)] *)
Definition Sprintf_address (target : string) (port : Z) : string :=
  (target ++ ":" ++ fmt_d port)%string.

(** What [fmt.Printf("Port %d open\n", port)] writes. *)
Definition Sprintf_open (port : Z) : string :=
  ("Port " ++ fmt_d port ++ " open" ++ nl)%string.

Section Scanner.

Context {W Conn : Type}.
Variable os : OS W Conn.

Definition IO (A : Type) : Type := St W Conn -> A * St W Conn.

Definition ret {A} (a : A) : IO A := fun st => (a, st).
Definition bind {A B} (m : IO A) (k : A -> IO B) : IO B :=
  fun st => let '(a, st') := m st in k a st'.

Notation "x <- m ;; k" := (bind m (fun x => k))
  (at level 61, m at next level, right associativity).
Notation "m ;; k" := (bind m (fun _ => k))
  (at level 61, right associativity).

Definition DialTimeout (network address : string) (timeout : Duration)
  : IO (DialResult Conn) :=
  fun st =>
    let '(r, w) := net_DialTimeout os network address timeout (world st) in
    (r, {| world := w;
           trace := trace st ++ [EvDial network address timeout r] |}).

Definition Print (s : string) : IO unit :=
  fun st =>
    (tt, {| world := stdout_Write os s (world st);
            trace := trace st ++ [EvStdout s] |}).

Definition Close (c : Conn) : IO unit :=
  fun st =>
    (tt, {| world := conn_Close os c (world st);
            trace := trace st ++ [EvConn c OpClose] |}).

(** ** The program *)

(** The body of the loop, lines 12 to 17. *)
Definition body (target : string) (timeout : Duration) (port : Z)
  : IO unit :=
  let address := Sprintf_address target port in
  r <- DialTimeout "tcp" address timeout ;;
  match r with
  | inl conn => Print (Sprintf_open port) ;; Close conn
  | inr _ => ret tt
  end.

(** [for port := lo; port <= hi; port++ { b }].  The loop need not end
    (when [hi] is the largest [int], [port <= hi] always holds), so it
    runs on fuel: [None] is a loop that has not ended yet. *)
Fixpoint for_loop (fuel : nat) (port hi : Z) (b : Z -> IO unit)
  (st : St W Conn) : option (St W Conn) :=
  match fuel with
  | O => None
  | S fuel' =>
      if port <=? hi
      then let '(_, st') := b port st in
           for_loop fuel' (wrap_int (port + 1)) hi b st'
      else Some st
  end.

(** The loop of [main] with the target, the two bounds and the timeout
    named; [main] below is this loop at the literals of the source. *)
Definition scan (target : string) (lo hi : Z) (timeout : Duration)
  (fuel : nat) (st : St W Conn) : option (St W Conn) :=
  for_loop fuel lo hi (body target timeout) st.

(** [main], lines 9 to 19. *)
Definition main (fuel : nat) (st : St W Conn) : option (St W Conn) :=
  let target := "scanme.nmap.org"%string in
  scan target 20 1024 (1 * Second) fuel st.

(** A Go process whose [main] returns exits with status 0; nothing in
    [main] panics or calls [os.Exit]. *)
Definition run (fuel : nat) (w : W) : option (Exit W Conn) :=
  match main fuel {| world := w; trace := [] |} with
  | Some st => Some {| final := st; status := 0 |}
  | None => None
  end.

(** The loop unrolled over a list of ports: what each dial returned, in
    order, and the state after the last turn.  The facts below relate
    [for_loop] to it. *)
Fixpoint turns (target : string) (timeout : Duration) (ps : list Z)
  (st : St W Conn) : list (Z * DialResult Conn) * St W Conn :=
  match ps with
  | [] => ([], st)
  | p :: ps' =>
      let r := fst (net_DialTimeout os "tcp" (Sprintf_address target p)
                      timeout (world st)) in
      let '(prs, st') := turns target timeout ps'
                           (snd (body target timeout p st)) in
      ((p, r) :: prs, st')
  end.

End Scanner.

(** ** Observations on a trace *)

Definition target : string := "scanme.nmap.org".

(** The ports [lo], [lo + 1], ..., [hi]. *)
Definition ports (lo hi : Z) : list Z :=
  map (fun i => lo + Z.of_nat i) (seq 0 (Z.to_nat (hi + 1 - lo))).

Section Observations.

Context {Conn : Type}.

(** The connection attempts of a trace, in order. *)
Fixpoint dials (tr : list (Event Conn)) : list (string * string * Duration) :=
  match tr with
  | [] => []
  | EvDial n a t _ :: tr' => (n, a, t) :: dials tr'
  | _ :: tr' => dials tr'
  end.

(** What a trace wrote to standard output, in order. *)
Fixpoint stdout (tr : list (Event Conn)) : list string :=
  match tr with
  | [] => []
  | EvStdout s :: tr' => s :: stdout tr'
  | _ :: tr' => stdout tr'
  end.

(** The attempt on [port] as it shows in [dials]. *)
Definition attempt (tgt : string) (timeout : Duration) (port : Z)
  : string * string * Duration :=
  ("tcp"%string, Sprintf_address tgt port, timeout).

(** The events of one turn of the loop on [port], given what the dial
    returned. *)
Definition block (tgt : string) (timeout : Duration)
  (pr : Z * DialResult Conn) : list (Event Conn) :=
  EvDial "tcp" (Sprintf_address tgt (fst pr)) timeout (snd pr) ::
  match snd pr with
  | inl c => [EvStdout (Sprintf_open (fst pr)); EvConn c OpClose]
  | inr _ => []
  end.

(** The ports whose dial returned no error. *)
Definition opened (prs : list (Z * DialResult Conn)) : list Z :=
  map fst (filter (fun pr => err_is_nil (snd pr)) prs).

(** The dial of the program to [port], with what it returned. *)
Definition dial_event (port : Z) (r : DialResult Conn) : Event Conn :=
  EvDial "tcp" (Sprintf_address target port) (1 * Second) r.

(** The attempt of the program on [port] as it shows in [dials]. *)
Definition main_attempt (port : Z) : string * string * Duration :=
  attempt target (1 * Second) port.

(** The socket discipline of a trace, read from its first event on, with
    [pending] the connection that is open before it: a dial is made only
    when no connection is open, an operation on a connection is on the
    open one, a close leaves none open, and none is open at the end. *)
Fixpoint one_at_a_time (pending : option Conn) (tr : list (Event Conn))
  : Prop :=
  match tr with
  | [] => pending = None
  | EvDial _ _ _ (inl c) :: tr' =>
      pending = None /\ one_at_a_time (Some c) tr'
  | EvDial _ _ _ (inr _) :: tr' =>
      pending = None /\ one_at_a_time None tr'
  | EvStdout _ :: tr' => one_at_a_time pending tr'
  | EvConn c OpClose :: tr' =>
      pending = Some c /\ one_at_a_time None tr'
  | EvConn c _ :: tr' =>
      pending = Some c /\ one_at_a_time pending tr'
  end.

End Observations.

(** How many times the character [c] occurs in [s]. *)
Fixpoint count_char (c : ascii) (s : string) : nat :=
  match s with
  | EmptyString => 0%nat
  | String a s' => ((if Ascii.eqb a c then 1 else 0) + count_char c s')%nat
  end.

(** The line feed as a character. *)
Definition nl_char : ascii := ascii_of_nat 10.

Definition attempt_eq_dec (a b : string * string * Duration) :
  {a = b} + {a <> b}.
Proof.
  repeat decide equality.
Defined.

(** ** Conditions on the environment *)

Section Conditions.

Context {W Conn : Type}.
Variable os : OS W Conn.

(** The target does not change: whether a dial to a port of the range
    succeeds does not depend on when it is made. *)
Definition unchanged : Prop :=
  forall (p : Z) (w w' : W), 20 <= p <= 1024 ->
    err_is_nil (fst (net_DialTimeout os "tcp" (Sprintf_address target p)
                       (1 * Second) w)) =
    err_is_nil (fst (net_DialTimeout os "tcp" (Sprintf_address target p)
                       (1 * Second) w')).

(** The name of the target does not resolve: every dial to it fails in
    the lookup of the host. *)
Definition host_unresolvable : Prop :=
  forall (p : Z) (t : Duration) (w : W),
    fst (net_DialTimeout os "tcp" (Sprintf_address target p) t w) =
    inr ErrNoSuchHost.

End Conditions.

(** ** Two concrete environments *)

(** A host that listens on the ports 22 and 80 and refuses every other
    port.  The world counts the sockets opened so far and a connection is
    the number of its socket. *)
Definition os_demo : OS nat nat := {|
  net_DialTimeout := fun _ address _ w =>
    if (String.eqb address "scanme.nmap.org:22"
        || String.eqb address "scanme.nmap.org:80")%bool
    then (inl w, S w)
    else (inr ErrRefused, w);
  stdout_Write := fun _ w => w;
  conn_Close := fun _ w => w
|}.

(** A resolver that knows no host: every dial fails in the lookup. *)
Definition os_nohost : OS unit nat := {|
  net_DialTimeout := fun _ _ _ w => (inr ErrNoSuchHost, w);
  stdout_Write := fun _ w => w;
  conn_Close := fun _ w => w
|}.

(** * Facts *)

(** ** Formatting *)

Lemma append_inv_head (s a b : string) :
  (s ++ a)%string = (s ++ b)%string -> a = b.
Proof.
  induction s as [|ch s IH]; simpl; intros H.
  - exact H.
  - injection H as H. auto.
Qed.

Lemma list_ascii_of_append (a b : string) :
  list_ascii_of_string (a ++ b) =
  (list_ascii_of_string a ++ list_ascii_of_string b)%list.
Proof.
  induction a as [|ch a IH]; simpl; [reflexivity | now rewrite IH].
Qed.

Lemma append_inv_tail (a b t : string) :
  (a ++ t)%string = (b ++ t)%string -> a = b.
Proof.
  intros H.
  apply (f_equal list_ascii_of_string) in H.
  rewrite !list_ascii_of_append in H.
  apply app_inv_tail in H.
  rewrite <- (string_of_list_ascii_of_string a).
  rewrite <- (string_of_list_ascii_of_string b).
  now rewrite H.
Qed.

Lemma to_int_canonical (z : Z) :
  Z.to_int z <> Decimal.Pos Decimal.Nil /\
  Z.to_int z <> Decimal.Neg Decimal.Nil.
Proof.
  destruct z as [|p|p]; simpl; split; try discriminate;
    intros H; injection H as H;
    exact (DecimalPos.Unsigned.to_uint_nonnil p H).
Qed.

Lemma fmt_d_inj (a b : Z) : fmt_d a = fmt_d b -> a = b.
Proof.
  unfold fmt_d. intros H.
  apply (f_equal NilZero.int_of_string) in H.
  destruct (to_int_canonical a) as [Ha1 Ha2].
  destruct (to_int_canonical b) as [Hb1 Hb2].
  rewrite !NilZero.isi in H by assumption.
  injection H as H.
  now apply DecimalZ.to_int_inj.
Qed.

Lemma Sprintf_address_inj (tgt : string) (p q : Z) :
  Sprintf_address tgt p = Sprintf_address tgt q -> p = q.
Proof.
  unfold Sprintf_address. intros H.
  apply append_inv_head in H. simpl in H.
  injection H as H. now apply fmt_d_inj.
Qed.

Lemma Sprintf_open_inj (p q : Z) : Sprintf_open p = Sprintf_open q -> p = q.
Proof.
  unfold Sprintf_open. intros H.
  apply append_inv_head in H.
  apply append_inv_tail in H.
  now apply fmt_d_inj.
Qed.

(** ** The list of ports *)

Lemma ports_nil (lo hi : Z) : hi < lo -> ports lo hi = [].
Proof.
  intros H. unfold ports.
  replace (Z.to_nat (hi + 1 - lo)) with 0%nat by lia. reflexivity.
Qed.

Lemma ports_cons (lo hi : Z) :
  lo <= hi -> ports lo hi = lo :: ports (lo + 1) hi.
Proof.
  intros H. unfold ports.
  replace (Z.to_nat (hi + 1 - lo)) with (S (Z.to_nat (hi + 1 - (lo + 1))))
    by lia.
  simpl. f_equal; [lia|].
  rewrite <- seq_shift, map_map.
  apply map_ext. intros i. lia.
Qed.

Lemma ports_length (lo hi : Z) :
  List.length (ports lo hi) = Z.to_nat (hi + 1 - lo).
Proof. unfold ports. now rewrite length_map, length_seq. Qed.

Lemma in_ports (lo hi p : Z) : In p (ports lo hi) <-> lo <= p <= hi.
Proof.
  unfold ports. rewrite in_map_iff. split.
  - intros (i & <- & Hi). apply in_seq in Hi. lia.
  - intros H. exists (Z.to_nat (p - lo)). split; [lia|].
    apply in_seq. lia.
Qed.

Lemma ports_split (lo hi p : Z) :
  lo <= p <= hi -> ports lo hi = ports lo (p - 1) ++ p :: ports (p + 1) hi.
Proof.
  intros H.
  remember (Z.to_nat (p - lo)) as n eqn:En.
  revert lo H En. induction n as [|n IH]; intros lo H En.
  - assert (lo = p) by lia. subst lo.
    rewrite (ports_nil p (p - 1)) by lia. simpl. apply ports_cons. lia.
  - rewrite (ports_cons lo hi) by lia.
    rewrite (ports_cons lo (p - 1)) by lia.
    simpl. f_equal. apply IH; lia.
Qed.

Lemma ports_sorted (lo hi : Z) : StronglySorted Z.lt (ports lo hi).
Proof.
  remember (Z.to_nat (hi + 1 - lo)) as n eqn:En.
  revert lo En. induction n as [|n IH]; intros lo En.
  - rewrite ports_nil by lia. constructor.
  - rewrite ports_cons by lia. constructor.
    + apply IH. lia.
    + apply Forall_forall. intros q Hq. apply in_ports in Hq. lia.
Qed.

Lemma sorted_NoDup (l : list Z) : StronglySorted Z.lt l -> NoDup l.
Proof.
  induction 1 as [|a l Hs IH Hall]; constructor; auto.
  intros Hin. rewrite Forall_forall in Hall.
  specialize (Hall a Hin). lia.
Qed.

Lemma ports_NoDup (lo hi : Z) : NoDup (ports lo hi).
Proof. apply sorted_NoDup, ports_sorted. Qed.

(** A list without repetition splits around an element in one way only. *)
Lemma NoDup_split_unique {A} (l1 l2 l1' l2' : list A) (x : A) :
  NoDup (l1 ++ x :: l2) ->
  l1 ++ x :: l2 = l1' ++ x :: l2' -> l1 = l1' /\ l2 = l2'.
Proof.
  revert l1'. induction l1 as [|a l1 IH]; intros l1' Hnd Heq.
  - destruct l1' as [|b l1']; simpl in *.
    + injection Heq as ->. auto.
    + injection Heq as <- ->. inversion Hnd as [|? ? Hn _]; subst.
      exfalso. apply Hn. apply in_or_app. right. left. reflexivity.
  - destruct l1' as [|b l1']; simpl in *.
    + injection Heq as -> <-. inversion Hnd as [|? ? Hn _]; subst.
      exfalso. apply Hn. apply in_or_app. right. left. reflexivity.
    + injection Heq as <- Heq. inversion Hnd as [|? ? _ Hnd']; subst.
      destruct (IH l1' Hnd' Heq) as [-> ->]. auto.
Qed.

(** ** Traces made of blocks *)

Section TraceFacts.

Context {Conn : Type}.
Implicit Types (tr : list (Event Conn)) (pr : Z * DialResult Conn)
  (prs : list (Z * DialResult Conn)).

Lemma dials_app tr1 tr2 : dials (tr1 ++ tr2) = dials tr1 ++ dials tr2.
Proof.
  induction tr1 as [|[n a t r|s|c op] tr1 IH]; simpl; congruence.
Qed.

Lemma stdout_app tr1 tr2 : stdout (tr1 ++ tr2) = stdout tr1 ++ stdout tr2.
Proof.
  induction tr1 as [|[n a t r|s|c op] tr1 IH]; simpl; congruence.
Qed.

Lemma in_stdout tr s : In s (stdout tr) <-> In (EvStdout s) tr.
Proof.
  induction tr as [|[n a t r|s'|c op] tr IH]; simpl.
  - tauto.
  - rewrite IH. split; [tauto | intros [H|H]; [discriminate | exact H]].
  - rewrite IH. split; intros [H|H]; auto; left; congruence.
  - rewrite IH. split; [tauto | intros [H|H]; [discriminate | exact H]].
Qed.

Variables (tgt : string) (timeout : Duration).

Lemma dials_block pr :
  dials (block tgt timeout pr) = [attempt tgt timeout (fst pr)].
Proof. destruct pr as [p [c|e]]; reflexivity. Qed.

Lemma stdout_block pr :
  stdout (block tgt timeout pr) =
  if err_is_nil (snd pr) then [Sprintf_open (fst pr)] else [].
Proof. destruct pr as [p [c|e]]; reflexivity. Qed.

Lemma dials_blocks prs :
  dials (flat_map (block tgt timeout) prs) =
  map (attempt tgt timeout) (map fst prs).
Proof.
  induction prs as [|pr prs IH]; [reflexivity|].
  cbn [flat_map map]. now rewrite dials_app, dials_block, IH.
Qed.

Lemma stdout_blocks prs :
  stdout (flat_map (block tgt timeout) prs) = map Sprintf_open (opened prs).
Proof.
  unfold opened.
  induction prs as [|[p [c|e]] prs IH]; [reflexivity| |];
    cbn [flat_map]; rewrite stdout_app, stdout_block, IH; reflexivity.
Qed.

Lemma in_opened prs p :
  In p (opened prs) <-> exists c, In (p, inl c) prs.
Proof.
  unfold opened. rewrite in_map_iff. split.
  - intros ([q [c|e]] & Hq & Hin); apply filter_In in Hin as [Hin Hok];
      simpl in *; [subst; eauto | discriminate].
  - intros [c Hc]. exists (p, inl c). split; [reflexivity|].
    apply filter_In. auto.
Qed.

Lemma opened_sorted prs :
  StronglySorted Z.lt (map fst prs) -> StronglySorted Z.lt (opened prs).
Proof.
  unfold opened.
  induction prs as [|[p r] prs IH]; simpl; intros Hs; [constructor|].
  apply StronglySorted_inv in Hs as [Hs Hall].
  destruct (err_is_nil r); simpl; [constructor|]; auto.
  rewrite Forall_forall in *. intros q Hq. apply Hall.
  apply in_map_iff in Hq as (pr & <- & Hin).
  apply filter_In in Hin as [Hin _]. now apply in_map.
Qed.

(** The events of a trace made of blocks. *)

Lemma in_blocks_dial prs n a t r :
  In (EvDial n a t r) (flat_map (block tgt timeout) prs) ->
  exists p, In (p, r) prs /\ n = "tcp"%string /\
            a = Sprintf_address tgt p /\ t = timeout.
Proof.
  rewrite in_flat_map. intros ([p r'] & Hin & Hev).
  unfold block in Hev. simpl in Hev.
  destruct Hev as [Hev|Hev].
  - injection Hev as <- <- <- <-. eauto.
  - destruct r' as [c|e]; simpl in Hev;
      repeat (destruct Hev as [Hev|Hev]; try discriminate); contradiction.
Qed.

Lemma in_blocks_stdout prs s :
  In (EvStdout s) (flat_map (block tgt timeout) prs) ->
  exists p c, In (p, inl c) prs /\ s = Sprintf_open p.
Proof.
  rewrite in_flat_map. intros ([p r'] & Hin & Hev).
  unfold block in Hev. simpl in Hev.
  destruct Hev as [Hev|Hev]; [discriminate|].
  destruct r' as [c|e]; simpl in Hev; [|contradiction].
  destruct Hev as [Hev|[Hev|[]]]; [|discriminate].
  injection Hev as <-. eauto.
Qed.

Lemma in_blocks_conn prs c op :
  In (EvConn c op) (flat_map (block tgt timeout) prs) ->
  op = OpClose /\ exists p, In (p, inl c) prs.
Proof.
  rewrite in_flat_map. intros ([p r'] & Hin & Hev).
  unfold block in Hev. simpl in Hev.
  destruct Hev as [Hev|Hev]; [discriminate|].
  destruct r' as [c'|e]; simpl in Hev; [|contradiction].
  destruct Hev as [Hev|[Hev|[]]]; [discriminate|].
  injection Hev as <- <-. eauto.
Qed.

(** In a trace of blocks over distinct ports, the block of a port stands
    between the blocks of the ports before it and those after it. *)
Lemma blocks_split prs lo hi p r :
  map fst prs = ports lo hi -> In (p, r) prs ->
  exists prs1 prs2,
    prs = prs1 ++ (p, r) :: prs2 /\
    map fst prs1 = ports lo (p - 1) /\
    map fst prs2 = ports (p + 1) hi.
Proof.
  intros Hfst Hin.
  destruct (in_split _ _ Hin) as (prs1 & prs2 & ->).
  exists prs1, prs2. split; [reflexivity|].
  rewrite map_app in Hfst. simpl in Hfst.
  assert (Hp : lo <= p <= hi).
  { apply in_ports. rewrite <- Hfst. apply in_or_app. right. now left. }
  assert (Hnd : NoDup (map fst prs1 ++ p :: map fst prs2)).
  { rewrite Hfst. apply ports_NoDup. }
  rewrite (ports_split lo hi p Hp) in Hfst.
  now apply NoDup_split_unique in Hfst.
Qed.

End TraceFacts.

(** ** The loop *)

Section LoopFacts.

Context {W Conn : Type}.
Variable os : OS W Conn.
Variables (tgt : string) (timeout : Duration).

Lemma body_trace (p : Z) (st : St W Conn) :
  trace (snd (body os tgt timeout p st)) =
  trace st ++
  block tgt timeout
    (p, fst (net_DialTimeout os "tcp" (Sprintf_address tgt p) timeout
               (world st))).
Proof.
  unfold body, bind, DialTimeout, Print, Close, ret, block.
  destruct (net_DialTimeout os "tcp" (Sprintf_address tgt p) timeout
              (world st)) as [[c|e] w]; simpl.
  - rewrite <- !app_assoc. reflexivity.
  - reflexivity.
Qed.

Lemma wrap_int_small (z : Z) : min_int <= z <= max_int -> wrap_int z = z.
Proof.
  unfold min_int, max_int, wrap_int. intros H.
  rewrite Z.mod_small; lia.
Qed.

Lemma turns_fst (ps : list Z) (st : St W Conn) :
  map fst (fst (turns os tgt timeout ps st)) = ps.
Proof.
  revert st. induction ps as [|p ps IH]; intros st; simpl; [reflexivity|].
  specialize (IH (snd (body os tgt timeout p st))).
  destruct (turns os tgt timeout ps (snd (body os tgt timeout p st)))
    as [prs st']. simpl in *. now rewrite IH.
Qed.

Lemma turns_trace (ps : list Z) (st : St W Conn) :
  trace (snd (turns os tgt timeout ps st)) =
  trace st ++ flat_map (block tgt timeout) (fst (turns os tgt timeout ps st)).
Proof.
  revert st. induction ps as [|p ps IH]; intros st; simpl.
  - now rewrite app_nil_r.
  - specialize (IH (snd (body os tgt timeout p st))).
    destruct (turns os tgt timeout ps (snd (body os tgt timeout p st)))
      as [prs st'].
    cbn [fst snd flat_map] in *.
    rewrite IH, body_trace, <- app_assoc. reflexivity.
Qed.

(** With fuel for every turn and for the last test of [port <= hi], the
    loop ends in the state [turns] computes. *)
Lemma for_loop_turns (lo hi : Z) (fuel : nat) (st : St W Conn) :
  min_int <= lo -> hi < max_int ->
  (Z.to_nat (hi + 1 - lo) < fuel)%nat ->
  for_loop fuel lo hi (body os tgt timeout) st =
  Some (snd (turns os tgt timeout (ports lo hi) st)).
Proof.
  remember (Z.to_nat (hi + 1 - lo)) as n eqn:En.
  revert lo fuel st En.
  induction n as [|n IH]; intros lo fuel st En Hlo Hhi Hfuel.
  - destruct fuel as [|fuel]; [lia|]. simpl.
    rewrite ports_nil by lia.
    destruct (Z.leb_spec lo hi); [lia | reflexivity].
  - destruct fuel as [|fuel]; [lia|]. simpl.
    rewrite ports_cons by lia.
    destruct (Z.leb_spec lo hi); [|lia].
    rewrite wrap_int_small by lia.
    cbn [turns].
    destruct (body os tgt timeout lo st) as [u st1] eqn:Eb.
    rewrite (IH (lo + 1) fuel st1) by lia.
    cbn [snd].
    destruct (turns os tgt timeout (ports (lo + 1) hi) st1).
    reflexivity.
Qed.

(** When the answer of a dial to each port does not depend on the world,
    the loop finds the same ports open from any two states. *)
Lemma turns_opened_stable (ps : list Z) (st1 st2 : St W Conn) :
  (forall p w w', In p ps ->
     err_is_nil (fst (net_DialTimeout os "tcp" (Sprintf_address tgt p)
                        timeout w)) =
     err_is_nil (fst (net_DialTimeout os "tcp" (Sprintf_address tgt p)
                        timeout w'))) ->
  opened (fst (turns os tgt timeout ps st1)) =
  opened (fst (turns os tgt timeout ps st2)).
Proof.
  revert st1 st2. induction ps as [|p ps IH]; intros st1 st2 H;
    [reflexivity|].
  cbn [turns].
  specialize (IH (snd (body os tgt timeout p st1))
                 (snd (body os tgt timeout p st2))
                 (fun q w w' Hq => H q w w' (or_intror Hq))).
  destruct (turns os tgt timeout ps (snd (body os tgt timeout p st1)))
    as [prs1 st1'].
  destruct (turns os tgt timeout ps (snd (body os tgt timeout p st2)))
    as [prs2 st2'].
  unfold opened in *. cbn [fst snd filter] in *.
  rewrite (H p (world st1) (world st2) (or_introl eq_refl)).
  destruct (err_is_nil _); cbn [map]; now rewrite IH.
Qed.

End LoopFacts.

(** ** Results of the dials *)

Section ResultFacts.

Context {W Conn : Type}.
Variable os : OS W Conn.
Variables (tgt : string) (timeout : Duration).

(** Every result [turns] records for a port is what the environment
    returned to a dial of this port in some world. *)
Lemma turns_results (ps : list Z) (st : St W Conn) (p : Z)
  (r : DialResult Conn) :
  In (p, r) (fst (turns os tgt timeout ps st)) ->
  In p ps /\
  exists w,
    r = fst (net_DialTimeout os "tcp" (Sprintf_address tgt p) timeout w).
Proof.
  revert st. induction ps as [|q ps IH]; intros st; [contradiction|].
  cbn [turns].
  specialize (IH (snd (body os tgt timeout q st))).
  destruct (turns os tgt timeout ps (snd (body os tgt timeout q st)))
    as [prs st'].
  cbn [fst]. intros [Heq|Hin].
  - injection Heq as <- <-. split; [now left | eauto].
  - destruct (IH Hin) as [Hp Hw]. split; [now right | exact Hw].
Qed.

End ResultFacts.

(** ** What a run of the program looks like *)

Section RunFacts.

Context {W Conn : Type}.
Variable os : OS W Conn.

(** [main] ends on 1006 units of fuel: 1005 turns and the last test. *)
Lemma main_turns (fuel : nat) (st : St W Conn) :
  (1006 <= fuel)%nat ->
  main os fuel st =
  Some (snd (turns os target (1 * Second) (ports 20 1024) st)).
Proof.
  intros H. unfold main, scan.
  apply for_loop_turns; unfold min_int, max_int; simpl; lia.
Qed.

Lemma run_turns (fuel : nat) (w : W) :
  (1006 <= fuel)%nat ->
  run os fuel w =
  Some {| final := snd (turns os target (1 * Second) (ports 20 1024)
                          {| world := w; trace := [] |});
          status := 0 |}.
Proof.
  intros H. unfold run. now rewrite main_turns by exact H.
Qed.

(** A run ends with status 0 and its trace is one block per port of
    20..1024, in this order. *)
Lemma run_blocks (fuel : nat) (w : W) :
  (1006 <= fuel)%nat ->
  exists e prs,
    run os fuel w = Some e /\
    status e = 0 /\
    map fst prs = ports 20 1024 /\
    trace (final e) = flat_map (block target (1 * Second)) prs /\
    prs = fst (turns os target (1 * Second) (ports 20 1024)
                 {| world := w; trace := [] |}) /\
    final e = snd (turns os target (1 * Second) (ports 20 1024)
                     {| world := w; trace := [] |}).
Proof.
  intros H. unfold run. rewrite main_turns by exact H.
  set (st0 := {| world := w; trace := [] |}).
  set (r := turns os target (1 * Second) (ports 20 1024) st0).
  exists {| final := snd r; status := 0 |}, (fst r).
  split; [reflexivity|].
  split; [reflexivity|].
  split; [apply turns_fst|].
  split; [|split; reflexivity].
  cbn [final]. unfold r. now rewrite turns_trace.
Qed.

(** Every dial a run records returned what the environment answers to a
    dial of this port in some world. *)
Lemma run_dial_results (fuel : nat) (w : W) (e : Exit W Conn) (p : Z)
  (r : DialResult Conn) :
  (1006 <= fuel)%nat ->
  run os fuel w = Some e ->
  In (EvDial "tcp" (Sprintf_address target p) (1 * Second) r)
     (trace (final e)) ->
  exists w',
    r = fst (net_DialTimeout os "tcp" (Sprintf_address target p)
               (1 * Second) w').
Proof.
  intros H Hrun Hin.
  destruct (run_blocks fuel w H) as (e' & prs & Hrun' & _ & _ & Htr & Hprs & _).
  rewrite Hrun in Hrun'. injection Hrun' as <-.
  rewrite Htr in Hin.
  apply in_blocks_dial in Hin as (q & Hq & _ & Ha & _).
  apply Sprintf_address_inj in Ha. subst q.
  rewrite Hprs in Hq. now apply turns_results in Hq.
Qed.

End RunFacts.

(** ** Traces of the program *)

Lemma NoDup_fst_functional {A B} (l : list (A * B)) (a : A) (b b' : B) :
  NoDup (map fst l) -> In (a, b) l -> In (a, b') l -> b = b'.
Proof.
  induction l as [|[x y] l IH]; simpl; intros Hnd H1 H2; [contradiction|].
  inversion Hnd as [|? ? Hn Hnd']; subst.
  destruct H1 as [H1|H1], H2 as [H2|H2].
  - congruence.
  - injection H1 as -> ->. exfalso. apply Hn.
    change a with (fst (a, b')). now apply in_map.
  - injection H2 as -> ->. exfalso. apply Hn.
    change a with (fst (a, b)). now apply in_map.
  - auto.
Qed.

Lemma NoDup_map_inj {A B} (f : A -> B) (l : list A) :
  (forall x y, f x = f y -> x = y) -> NoDup l -> NoDup (map f l).
Proof.
  intros Hinj. induction 1 as [|a l Hn Hnd IH]; simpl; constructor; auto.
  intros Hin. apply in_map_iff in Hin as (y & Hy & Hin).
  apply Hinj in Hy. now subst.
Qed.

Section ProgramTraces.

Context {Conn : Type}.
Implicit Types (prs : list (Z * DialResult Conn)).

Local Abbreviation blocks prs := (flat_map (block target (1 * Second)) prs).

Lemma in_blocks_dial_event prs p r :
  In (dial_event p r) (blocks prs) -> In (p, r) prs.
Proof.
  intros H. apply in_blocks_dial in H as (q & Hin & _ & Ha & _).
  apply Sprintf_address_inj in Ha. now subst.
Qed.

Lemma opened_NoDup prs : NoDup (map fst prs) -> NoDup (opened prs).
Proof.
  unfold opened.
  induction prs as [|[p r] prs IH]; simpl; intros Hnd; [constructor|].
  inversion Hnd as [|? ? Hn Hnd']; subst.
  destruct (err_is_nil r); simpl; auto.
  constructor; auto.
  intros Hin. apply Hn.
  apply in_map_iff in Hin as (pr & <- & Hin).
  apply filter_In in Hin as [Hin _]. now apply in_map.
Qed.

Lemma stdout_NoDup prs :
  NoDup (map fst prs) -> NoDup (stdout (blocks prs)).
Proof.
  intros Hnd. rewrite stdout_blocks.
  apply NoDup_map_inj; [exact Sprintf_open_inj | now apply opened_NoDup].
Qed.

Lemma stdout_count prs p c :
  NoDup (map fst prs) -> In (p, inl c) prs ->
  count_occ string_dec (stdout (blocks prs)) (Sprintf_open p) = 1%nat.
Proof.
  intros Hnd Hin.
  apply (proj1 (NoDup_count_occ' string_dec _) (stdout_NoDup prs Hnd)).
  rewrite stdout_blocks.
  apply in_map, in_opened. eauto.
Qed.

(** The block of a port of the program stands after the attempts on the
    ports below it and before the attempts on the ports above it. *)
Lemma blocks_around prs p r :
  map fst prs = ports 20 1024 -> In (p, r) prs ->
  exists pre post,
    blocks prs = pre ++ block target (1 * Second) (p, r) ++ post /\
    dials pre = map main_attempt (ports 20 (p - 1)) /\
    dials post = map main_attempt (ports (p + 1) 1024).
Proof.
  intros Hfst Hin.
  destruct (blocks_split prs 20 1024 p r Hfst Hin)
    as (prs1 & prs2 & -> & H1 & H2).
  exists (blocks prs1), (blocks prs2).
  rewrite flat_map_app. cbn [flat_map].
  split; [reflexivity|].
  rewrite !dials_blocks, H1, H2. split; reflexivity.
Qed.

Lemma dials_length prs :
  map fst prs = ports 20 1024 ->
  List.length (dials (blocks prs)) = 1005%nat.
Proof.
  intros Hfst.
  now rewrite dials_blocks, Hfst, length_map, ports_length.
Qed.

End ProgramTraces.

Section BlockSizes.

Context {Conn : Type}.
Implicit Types (prs : list (Z * DialResult Conn)).
Variables (tgt : string) (timeout : Duration).

Lemma blocks_length prs :
  (List.length (flat_map (block tgt timeout) prs) <= 3 * List.length prs)%nat.
Proof.
  induction prs as [|[p [c|e]] prs IH]; cbn [flat_map]; [simpl; lia| |];
    rewrite length_app; unfold block at 1; cbn [snd List.length];
    cbn [List.length] in IH; lia.
Qed.

Lemma opened_length prs : (List.length (opened prs) <= List.length prs)%nat.
Proof.
  unfold opened. rewrite length_map. apply filter_length_le.
Qed.

(** When no recorded dial succeeded, the trace is the dials alone. *)
Lemma blocks_all_failed prs (err : error) :
  (forall p r, In (p, r) prs -> r = inr err) ->
  flat_map (block tgt timeout) prs =
  map (fun p => EvDial "tcp" (Sprintf_address tgt p) timeout (inr err))
      (map fst prs).
Proof.
  induction prs as [|[p r] prs IH]; intros H; [reflexivity|].
  cbn [flat_map map fst].
  rewrite IH by (intros q r' Hq; apply (H q r'); now right).
  rewrite (H p r (or_introl eq_refl)). reflexivity.
Qed.

Lemma opened_none prs :
  (forall p r, In (p, r) prs -> err_is_nil r = false) -> opened prs = [].
Proof.
  intros H. destruct (opened prs) as [|q l] eqn:E; [reflexivity|].
  assert (Hq : In q (opened prs)) by (rewrite E; now left).
  apply in_opened in Hq as [c Hc]. apply H in Hc. discriminate.
Qed.

End BlockSizes.

(** * The claims *)

Section Claims.

Context {W Conn : Type}.
Variable os : OS W Conn.

(** Start the proof of a claim on a run: name the exit [e] and the dial
    results [prs] of the run, and turn its trace into blocks. *)
Ltac on_run w H e prs Hst Hfst :=
  let Hrun := fresh "Hrun" in
  let Htr := fresh "Htr" in
  destruct (run_blocks os _ w H) as (e & prs & Hrun & Hst & Hfst & Htr & _);
  exists e; split; [exact Hrun|]; rewrite !Htr; clear Hrun Htr;
  assert (NoDup (map fst prs)) by (rewrite Hfst; apply ports_NoDup).

(** C1: for every port of the range whose dial succeeds, the run writes
    exactly one report [Port <port> open], and the dial, the report and
    the close of the connection follow one another in the trace; the only
    operation the run performs on any connection is [Close], so nothing is
    read from or written to it. *)
Theorem C1_open_port_reported_once_then_closed (fuel : nat) (w : W) :
  (1006 <= fuel)%nat ->
  exists e, run os fuel w = Some e /\
    forall (p : Z) (c : Conn),
      20 <= p <= 1024 ->
      In (dial_event p (inl c)) (trace (final e)) ->
      count_occ string_dec (stdout (trace (final e))) (Sprintf_open p) = 1%nat
      /\ (exists pre post,
            trace (final e) =
            pre ++ [dial_event p (inl c); EvStdout (Sprintf_open p);
                    EvConn c OpClose] ++ post)
      /\ (forall c' op, In (EvConn c' op) (trace (final e)) -> op = OpClose).
Proof.
  intros H. on_run w H e prs Hst Hfst.
  intros p c Hp Hin. apply in_blocks_dial_event in Hin.
  split; [now apply stdout_count with (c := c)|].
  split.
  - destruct (blocks_around prs p (inl c) Hfst Hin) as (pre & post & Heq & _).
    exists pre, post. exact Heq.
  - intros c' op Hc. now apply in_blocks_conn in Hc.
Qed.

(** C2: for every port of the range whose dial fails, with any error, the
    run writes no report for the port; every line the run writes is the
    report of a port whose dial succeeded, so no error shows in the output,
    and the exit status is 0; and the scan goes on: after the failed dial
    the run attempts every port above it, up to 1024. *)
Theorem C2_failed_port_silent_and_scan_continues (fuel : nat) (w : W) :
  (1006 <= fuel)%nat ->
  exists e, run os fuel w = Some e /\
    status e = 0 /\
    (forall s, In s (stdout (trace (final e))) ->
       exists q c, s = Sprintf_open q /\
                   In (dial_event q (inl c)) (trace (final e))) /\
    forall (p : Z) (err : error),
      20 <= p <= 1024 ->
      In (dial_event p (inr err)) (trace (final e)) ->
      ~ In (Sprintf_open p) (stdout (trace (final e))) /\
      exists pre post,
        trace (final e) = pre ++ dial_event p (inr err) :: post /\
        dials pre = map main_attempt (ports 20 (p - 1)) /\
        dials post = map main_attempt (ports (p + 1) 1024).
Proof.
  intros H.
  destruct (run_blocks os _ w H) as (e & prs & Hrun & Hst & Hfst & Htr & _).
  exists e. split; [exact Hrun|]. split; [exact Hst|]. rewrite !Htr.
  assert (Hnd : NoDup (map fst prs)) by (rewrite Hfst; apply ports_NoDup).
  split.
  - intros s Hs. apply in_stdout, in_blocks_stdout in Hs as (q & c & Hin & ->).
    exists q, c. split; [reflexivity|].
    apply in_flat_map. exists (q, inl c). split; [exact Hin | now left].
  - intros p err Hp Hin. apply in_blocks_dial_event in Hin. split.
    + intros Hs. apply in_stdout, in_blocks_stdout in Hs as (q & c & Hq & Heq).
      apply Sprintf_open_inj in Heq. subst q.
      pose proof (NoDup_fst_functional prs p _ _ Hnd Hin Hq). discriminate.
    + destruct (blocks_around prs p (inr err) Hfst Hin)
        as (pre & post & Heq & Hpre & Hpost).
      exists pre, post. auto.
Qed.

(** C3: the run attempts the ports 20, 21, ..., 1024 in this order, which
    is ascending, and the ports it reports open, in the order of the
    reports, are strictly increasing. *)
Theorem C3_ascending_attempts_increasing_reports (fuel : nat) (w : W) :
  (1006 <= fuel)%nat ->
  exists e, run os fuel w = Some e /\
    dials (trace (final e)) = map main_attempt (ports 20 1024) /\
    StronglySorted Z.lt (ports 20 1024) /\
    exists ps,
      stdout (trace (final e)) = map Sprintf_open ps /\
      StronglySorted Z.lt ps /\
      (forall p, In p ps -> 20 <= p <= 1024).
Proof.
  intros H. on_run w H e prs Hst Hfst.
  split; [now rewrite dials_blocks, Hfst|].
  split; [apply ports_sorted|].
  exists (opened prs).
  split; [apply stdout_blocks|].
  split.
  - apply opened_sorted. rewrite Hfst. apply ports_sorted.
  - intros p Hp. apply in_opened in Hp as [c Hc].
    apply in_ports. rewrite <- Hfst.
    change p with (fst (p, @inl Conn error c)). now apply in_map.
Qed.

(** C4: no line is written twice in a run: each port is reported open at
    most once. *)
Theorem C4_port_reported_at_most_once (fuel : nat) (w : W) :
  (1006 <= fuel)%nat ->
  exists e, run os fuel w = Some e /\
    NoDup (stdout (trace (final e))) /\
    forall p : Z,
      (count_occ string_dec (stdout (trace (final e))) (Sprintf_open p)
       <= 1)%nat.
Proof.
  intros H. on_run w H e prs Hst Hfst.
  assert (Hnd : NoDup (stdout (flat_map (block target (1 * Second)) prs)))
    by now apply stdout_NoDup.
  split; [exact Hnd|].
  intros p. now apply (proj1 (NoDup_count_occ string_dec _)).
Qed.

(** C5: the run attempts exactly the ports 20..1024 of scanme.nmap.org,
    each with a timeout of 1000000000 nanoseconds; for each port <N> whose
    dial succeeds it writes the line [Port <N> open] exactly once, and
    writes it right after the dial, when only the ports up to <N> have
    been attempted and before any port above <N> is; and it writes
    nothing else. *)
Theorem C5_fixed_range_timeout_and_streamed_lines (fuel : nat) (w : W) :
  (1006 <= fuel)%nat ->
  exists e, run os fuel w = Some e /\
    dials (trace (final e)) =
    map (fun p =>
           ("tcp", Sprintf_address "scanme.nmap.org" p, 1000000000)%string)
        (ports 20 1024) /\
    (forall s, In s (stdout (trace (final e))) ->
       exists p, 20 <= p <= 1024 /\
                 s = ("Port " ++ fmt_d p ++ " open" ++ nl)%string) /\
    forall (p : Z) (c : Conn),
      In (dial_event p (inl c)) (trace (final e)) ->
      count_occ string_dec (stdout (trace (final e)))
        ("Port " ++ fmt_d p ++ " open" ++ nl)%string = 1%nat /\
      exists pre post,
        trace (final e) =
        pre ++ dial_event p (inl c) :: EvStdout (Sprintf_open p) :: post /\
        dials pre = map main_attempt (ports 20 (p - 1)) /\
        dials post = map main_attempt (ports (p + 1) 1024).
Proof.
  intros H. on_run w H e prs Hst Hfst.
  split; [now rewrite dials_blocks, Hfst|].
  split.
  - intros s Hs. apply in_stdout, in_blocks_stdout in Hs as (q & c & Hin & ->).
    exists q. split; [|reflexivity].
    apply in_ports. rewrite <- Hfst.
    change q with (fst (q, @inl Conn error c)). now apply in_map.
  - intros p c Hin. apply in_blocks_dial_event in Hin.
    split; [now apply stdout_count with (c := c)|].
    destruct (blocks_around prs p (inl c) Hfst Hin)
      as (pre & post & Heq & Hpre & Hpost).
    exists pre, (EvConn c OpClose :: post).
    split; [exact Heq|]. split; [exact Hpre|exact Hpost].
Qed.

(** C6, as amended: when the name of the target does not resolve, every
    dial fails in the lookup and the run has no result; but the program has
    no resolution step of its own and does not abort: it still dials each
    of the 1005 ports, writes nothing, no diagnostic either, and exits with
    status 0.  The failure is handled port by port, like any other failed
    dial. *)
Theorem C6_unresolvable_host_scanned_silently (fuel : nat) (w : W) :
  (1006 <= fuel)%nat ->
  host_unresolvable os ->
  exists e, run os fuel w = Some e /\
    stdout (trace (final e)) = [] /\
    status e = 0 /\
    trace (final e) =
    map (fun p => dial_event p (inr ErrNoSuchHost)) (ports 20 1024).
Proof.
  intros H Hres.
  destruct (run_blocks os _ w H)
    as (e & prs & Hrun & Hst & Hfst & Htr & Hprs & _).
  exists e. split; [exact Hrun|].
  assert (Hall : forall p r, In (p, r) prs -> r = inr ErrNoSuchHost).
  { intros p r Hin. rewrite Hprs in Hin.
    apply turns_results in Hin as (_ & w' & ->). apply Hres. }
  rewrite Htr, stdout_blocks.
  rewrite opened_none by (intros p r Hin; now rewrite (Hall p r Hin)).
  split; [reflexivity|]. split; [exact Hst|].
  rewrite (blocks_all_failed _ _ prs ErrNoSuchHost Hall), Hfst.
  reflexivity.
Qed.

(** C8: the run ends, on any fuel from 1006 on and always in the same
    exit; every dial it makes carries the timeout of one second, which is
    positive; the trace is finite, with 1005 dials, at most 3015 events
    and at most 1005 reports; and the trace ends with the turn of the loop
    on the port 1024, the last of the range, after the attempts on 20 to
    1023: once every port has been attempted nothing more is reported. *)
Theorem C8_scan_terminates_attempts_bounded (fuel : nat) (w : W) :
  (1006 <= fuel)%nat ->
  exists e, run os fuel w = Some e /\
    (forall fuel', (1006 <= fuel')%nat -> run os fuel' w = Some e) /\
    0 < 1 * Second /\
    Forall (fun d => snd d = 1 * Second) (dials (trace (final e))) /\
    List.length (dials (trace (final e))) = 1005%nat /\
    (List.length (trace (final e)) <= 3015)%nat /\
    (List.length (stdout (trace (final e))) <= 1005)%nat /\
    exists pre r,
      trace (final e) = pre ++ block target (1 * Second) (1024, r) /\
      dials pre = map main_attempt (ports 20 1023).
Proof.
  intros H.
  pose proof (run_turns os fuel w H) as Hrun.
  destruct (run_blocks os _ w H) as (e & prs & Hrun' & Hst & Hfst & Htr & _).
  exists e. split; [exact Hrun'|].
  split.
  { intros fuel' H'. rewrite (run_turns os fuel' w H'), <- Hrun. exact Hrun'. }
  rewrite !Htr. clear Hrun Hrun' Htr.
  assert (Hlen : List.length prs = 1005%nat).
  { rewrite <- (length_map fst), Hfst, ports_length. reflexivity. }
  split; [reflexivity|].
  split.
  { rewrite dials_blocks. apply Forall_forall. intros d Hd.
    apply in_map_iff in Hd as (p & <- & _). reflexivity. }
  split; [now apply dials_length|].
  split.
  { pose proof (blocks_length target (1 * Second) prs). lia. }
  split.
  { rewrite stdout_blocks, length_map.
    pose proof (opened_length prs). lia. }
  assert (Hin : In 1024 (map fst prs)).
  { rewrite Hfst. apply in_ports. lia. }
  apply in_map_iff in Hin as ([p r] & Hp & Hin). simpl in Hp. subst p.
  destruct (blocks_split prs 20 1024 1024 r Hfst Hin)
    as (prs1 & prs2 & -> & H1 & H2).
  rewrite ports_nil in H2 by lia. apply map_eq_nil in H2. subst prs2.
  exists (flat_map (block target (1 * Second)) prs1), r.
  rewrite flat_map_app. cbn [flat_map]. rewrite app_nil_r.
  split; [reflexivity|].
  now rewrite dials_blocks, H1.
Qed.

(** C9: when the target does not change, that is when whether a dial to
    a port succeeds does not depend on the moment it is made, a run and a
    second run made after it write the same lines, so they report the same
    set of open ports. *)
Theorem C9_same_open_ports_on_second_run (fuel : nat) (w : W) :
  (1006 <= fuel)%nat ->
  unchanged os ->
  exists e1 e2,
    run os fuel w = Some e1 /\
    run os fuel (world (final e1)) = Some e2 /\
    stdout (trace (final e1)) = stdout (trace (final e2)) /\
    forall p : Z,
      In (Sprintf_open p) (stdout (trace (final e1))) <->
      In (Sprintf_open p) (stdout (trace (final e2))).
Proof.
  intros H Hun.
  destruct (run_blocks os _ w H)
    as (e1 & prs1 & Hrun1 & _ & _ & Htr1 & Hprs1 & _).
  destruct (run_blocks os _ (world (final e1)) H)
    as (e2 & prs2 & Hrun2 & _ & _ & Htr2 & Hprs2 & _).
  exists e1, e2. split; [exact Hrun1|]. split; [exact Hrun2|].
  assert (Heq : stdout (trace (final e1)) = stdout (trace (final e2))).
  { rewrite Htr1, Htr2, !stdout_blocks, Hprs1, Hprs2.
    apply (f_equal (map Sprintf_open)).
    apply turns_opened_stable.
    intros p w1 w2 Hp. apply Hun. now apply in_ports. }
  split; [exact Heq|]. intros p. now rewrite Heq.
Qed.

(** C10: whatever the dials return, the run makes one connection attempt
    per port of 20..1024, in order: 1005 attempts, each port attempted
    exactly once; then the process ends with status 0.  When every attempt
    fails, the run writes nothing. *)
Theorem C10_one_attempt_per_port_then_exit_0 (fuel : nat) (w : W) :
  (1006 <= fuel)%nat ->
  exists e, run os fuel w = Some e /\
    status e = 0 /\
    dials (trace (final e)) = map main_attempt (ports 20 1024) /\
    List.length (dials (trace (final e))) = 1005%nat /\
    (forall p, 20 <= p <= 1024 ->
       count_occ attempt_eq_dec (dials (trace (final e))) (main_attempt p)
       = 1%nat) /\
    ((forall p r, In (dial_event p r) (trace (final e)) ->
                  err_is_nil r = false) ->
     stdout (trace (final e)) = []).
Proof.
  intros H.
  destruct (run_blocks os _ w H) as (e & prs & Hrun & Hst & Hfst & Htr & _).
  exists e. split; [exact Hrun|]. split; [exact Hst|]. rewrite !Htr.
  assert (Hd : dials (flat_map (block target (1 * Second)) prs) =
               map main_attempt (ports 20 1024))
    by now rewrite dials_blocks, Hfst.
  split; [exact Hd|].
  split; [now apply dials_length|].
  split.
  - intros p Hp. rewrite Hd.
    apply (proj1 (NoDup_count_occ' attempt_eq_dec _)).
    + apply NoDup_map_inj; [|apply ports_NoDup].
      intros x y Hxy.
      apply (f_equal (fun a => snd (fst a))) in Hxy.
      exact (Sprintf_address_inj target x y Hxy).
    + apply in_map. now apply in_ports.
  - intros Hfail. rewrite stdout_blocks, opened_none; [reflexivity|].
    intros p r Hin. apply (Hfail p).
    apply in_flat_map. exists (p, r). split; [exact Hin | now left].
Qed.

End Claims.

(** * The claims on concrete environments *)

Lemma os_demo_unchanged : unchanged os_demo.
Proof.
  intros p w w' _. cbn [os_demo net_DialTimeout].
  destruct (_ || _)%bool; reflexivity.
Qed.

Lemma os_nohost_unresolvable : host_unresolvable os_nohost.
Proof. intros p t w. reflexivity. Qed.

(** Replace the exit of a run on a concrete environment by its value. *)
Ltac eval_run Hrun := vm_compute in Hrun; injection Hrun as <-.

Lemma C1_witness :
  (1006 <= 1006)%nat /\
  exists e, run os_demo 1006 0%nat = Some e /\
    20 <= 22 <= 1024 /\
    In (dial_event 22 (inl 0%nat)) (trace (final e)) /\
    count_occ string_dec (stdout (trace (final e))) (Sprintf_open 22) = 1%nat
    /\ (exists pre post,
          trace (final e) =
          pre ++ [dial_event 22 (inl 0%nat); EvStdout (Sprintf_open 22);
                  EvConn 0%nat OpClose] ++ post)
    /\ (forall c' op, In (EvConn c' op) (trace (final e)) -> op = OpClose).
Proof.
  split; [lia|].
  destruct (C1_open_port_reported_once_then_closed os_demo 1006 0%nat
              ltac:(lia)) as (e & Hrun & Hc).
  exists e. split; [exact Hrun|]. split; [lia|].
  assert (Hin : In (dial_event 22 (inl 0%nat)) (trace (final e))).
  { eval_run Hrun. apply (nth_error_In _ 2). vm_compute. reflexivity. }
  split; [exact Hin|].
  apply (Hc 22 0%nat); [lia | exact Hin].
Defined.

Lemma C2_witness :
  (1006 <= 1006)%nat /\
  exists e, run os_demo 1006 0%nat = Some e /\
    status e = 0 /\
    (forall s, In s (stdout (trace (final e))) ->
       exists q c, s = Sprintf_open q /\
                   In (dial_event q (inl c)) (trace (final e))) /\
    20 <= 21 <= 1024 /\
    In (dial_event 21 (inr ErrRefused)) (trace (final e)) /\
    ~ In (Sprintf_open 21) (stdout (trace (final e))) /\
    exists pre post,
      trace (final e) = pre ++ dial_event 21 (inr ErrRefused) :: post /\
      dials pre = map main_attempt (ports 20 (21 - 1)) /\
      dials post = map main_attempt (ports (21 + 1) 1024).
Proof.
  split; [lia|].
  destruct (C2_failed_port_silent_and_scan_continues os_demo 1006 0%nat
              ltac:(lia)) as (e & Hrun & Hst & Hout & Hc).
  exists e. split; [exact Hrun|]. split; [exact Hst|].
  split; [exact Hout|]. split; [lia|].
  assert (Hin : In (dial_event 21 (inr ErrRefused)) (trace (final e))).
  { eval_run Hrun. apply (nth_error_In _ 1). vm_compute. reflexivity. }
  split; [exact Hin|].
  apply (Hc 21 ErrRefused); [lia | exact Hin].
Defined.

Lemma C3_witness :
  (1006 <= 1006)%nat /\
  exists e, run os_demo 1006 0%nat = Some e /\
    dials (trace (final e)) = map main_attempt (ports 20 1024) /\
    StronglySorted Z.lt (ports 20 1024) /\
    exists ps,
      stdout (trace (final e)) = map Sprintf_open ps /\
      StronglySorted Z.lt ps /\
      (forall p, In p ps -> 20 <= p <= 1024).
Proof.
  split; [lia|].
  apply (C3_ascending_attempts_increasing_reports os_demo 1006 0%nat).
  lia.
Defined.

Lemma C4_witness :
  (1006 <= 1006)%nat /\
  exists e, run os_demo 1006 0%nat = Some e /\
    NoDup (stdout (trace (final e))) /\
    forall p : Z,
      (count_occ string_dec (stdout (trace (final e))) (Sprintf_open p)
       <= 1)%nat.
Proof.
  split; [lia|].
  apply (C4_port_reported_at_most_once os_demo 1006 0%nat).
  lia.
Defined.

Lemma C5_witness :
  (1006 <= 1006)%nat /\
  exists e, run os_demo 1006 0%nat = Some e /\
    dials (trace (final e)) =
    map (fun p =>
           ("tcp", Sprintf_address "scanme.nmap.org" p, 1000000000)%string)
        (ports 20 1024) /\
    (forall s, In s (stdout (trace (final e))) ->
       exists p, 20 <= p <= 1024 /\
                 s = ("Port " ++ fmt_d p ++ " open" ++ nl)%string) /\
    In (dial_event 80 (inl 1%nat)) (trace (final e)) /\
    count_occ string_dec (stdout (trace (final e)))
      ("Port " ++ fmt_d 80 ++ " open" ++ nl)%string = 1%nat /\
    exists pre post,
      trace (final e) =
      pre ++ dial_event 80 (inl 1%nat) :: EvStdout (Sprintf_open 80) :: post /\
      dials pre = map main_attempt (ports 20 (80 - 1)) /\
      dials post = map main_attempt (ports (80 + 1) 1024).
Proof.
  split; [lia|].
  destruct (C5_fixed_range_timeout_and_streamed_lines os_demo 1006 0%nat
              ltac:(lia)) as (e & Hrun & Hd & Hout & Hc).
  exists e. split; [exact Hrun|]. split; [exact Hd|]. split; [exact Hout|].
  assert (Hin : In (dial_event 80 (inl 1%nat)) (trace (final e))).
  { eval_run Hrun. apply (nth_error_In _ 62). vm_compute. reflexivity. }
  split; [exact Hin|].
  apply (Hc 80 1%nat). exact Hin.
Defined.

(** C6 as the specification states it fails on the program: on a host
    whose name never resolves, the run does not abort, dials all 1005
    ports, writes no diagnostic and exits with status 0. *)
Lemma C6_counterexample :
  host_unresolvable os_nohost /\
  exists e, run os_nohost 1006 tt = Some e /\
    status e = 0 /\
    stdout (trace (final e)) = [] /\
    List.length (dials (trace (final e))) = 1005%nat.
Proof.
  split; [exact os_nohost_unresolvable|].
  eexists. split; [vm_compute; reflexivity|].
  split; [reflexivity|]. split; vm_compute; reflexivity.
Qed.

Lemma C6_witness :
  (1006 <= 1006)%nat /\
  host_unresolvable os_nohost /\
  exists e, run os_nohost 1006 tt = Some e /\
    stdout (trace (final e)) = [] /\
    status e = 0 /\
    trace (final e) =
    map (fun p => dial_event p (inr ErrNoSuchHost)) (ports 20 1024).
Proof.
  split; [lia|]. split; [exact os_nohost_unresolvable|].
  apply (C6_unresolvable_host_scanned_silently os_nohost 1006 tt).
  - lia.
  - exact os_nohost_unresolvable.
Defined.

Lemma C8_witness :
  (1006 <= 1006)%nat /\
  exists e, run os_demo 1006 0%nat = Some e /\
    (forall fuel', (1006 <= fuel')%nat -> run os_demo fuel' 0%nat = Some e) /\
    0 < 1 * Second /\
    Forall (fun d => snd d = 1 * Second) (dials (trace (final e))) /\
    List.length (dials (trace (final e))) = 1005%nat /\
    (List.length (trace (final e)) <= 3015)%nat /\
    (List.length (stdout (trace (final e))) <= 1005)%nat /\
    exists pre r,
      trace (final e) = pre ++ block target (1 * Second) (1024, r) /\
      dials pre = map main_attempt (ports 20 1023).
Proof.
  split; [lia|].
  apply (C8_scan_terminates_attempts_bounded os_demo 1006 0%nat).
  lia.
Defined.

Lemma C9_witness :
  (1006 <= 1006)%nat /\
  unchanged os_demo /\
  exists e1 e2,
    run os_demo 1006 0%nat = Some e1 /\
    run os_demo 1006 (world (final e1)) = Some e2 /\
    stdout (trace (final e1)) = stdout (trace (final e2)) /\
    forall p : Z,
      In (Sprintf_open p) (stdout (trace (final e1))) <->
      In (Sprintf_open p) (stdout (trace (final e2))).
Proof.
  split; [lia|]. split; [exact os_demo_unchanged|].
  apply (C9_same_open_ports_on_second_run os_demo 1006 0%nat).
  - lia.
  - exact os_demo_unchanged.
Defined.

Lemma C10_witness :
  (1006 <= 1006)%nat /\
  exists e, run os_nohost 1006 tt = Some e /\
    status e = 0 /\
    dials (trace (final e)) = map main_attempt (ports 20 1024) /\
    List.length (dials (trace (final e))) = 1005%nat /\
    (20 <= 443 <= 1024 /\
     count_occ attempt_eq_dec (dials (trace (final e))) (main_attempt 443)
     = 1%nat) /\
    (forall p r, In (dial_event p r) (trace (final e)) ->
                 err_is_nil r = false) /\
    stdout (trace (final e)) = [].
Proof.
  split; [lia|].
  destruct (C10_one_attempt_per_port_then_exit_0 os_nohost 1006 tt
              ltac:(lia)) as (e & Hrun & Hst & Hd & Hlen & Hone & Hfail).
  exists e. split; [exact Hrun|]. split; [exact Hst|].
  split; [exact Hd|]. split; [exact Hlen|].
  split; [split; [lia | apply Hone; lia]|].
  assert (Hall : forall p r, In (dial_event p r) (trace (final e)) ->
                             err_is_nil r = false).
  { intros p r Hin.
    destruct (run_dial_results os_nohost 1006 tt e p r ltac:(lia) Hrun Hin)
      as [w' ->].
    reflexivity. }
  split; [exact Hall | exact (Hfail Hall)].
Defined.

(** * Further properties of the program *)

(** ** The lines and the addresses *)

Lemma count_char_append (c : ascii) (a b : string) :
  count_char c (a ++ b) = (count_char c a + count_char c b)%nat.
Proof.
  induction a as [|ch a IH]; simpl; [reflexivity | rewrite IH; lia].
Qed.

Lemma uint_digits_no_nl (d : Decimal.uint) :
  count_char nl_char (NilEmpty.string_of_uint d) = 0%nat.
Proof.
  induction d as [|d IH|d IH|d IH|d IH|d IH|d IH|d IH|d IH|d IH|d IH];
    simpl; auto.
Qed.

Lemma fmt_d_no_nl (z : Z) : count_char nl_char (fmt_d z) = 0%nat.
Proof.
  unfold fmt_d.
  destruct (Z.to_int z) as [d|d]; simpl;
    (destruct d; [reflexivity | apply (uint_digits_no_nl (_ d)) ..]).
Qed.

Lemma append_assoc (a b c : string) :
  ((a ++ b) ++ c)%string = (a ++ (b ++ c))%string.
Proof.
  induction a as [|ch a IH]; simpl; [reflexivity | now rewrite IH].
Qed.

(** X1: what the program writes for a port is exactly one line: the string
    ends with the line feed and holds no other line feed, whatever the
    port. *)
Theorem X1_report_is_exactly_one_line (p : Z) :
  count_char nl_char (Sprintf_open p) = 1%nat /\
  exists text,
    Sprintf_open p = (text ++ nl)%string /\
    count_char nl_char text = 0%nat.
Proof.
  assert (Hsplit : Sprintf_open p =
                   (("Port " ++ fmt_d p ++ " open") ++ nl)%string).
  { unfold Sprintf_open. now rewrite !append_assoc. }
  assert (Htext : count_char nl_char ("Port " ++ fmt_d p ++ " open") = 0%nat).
  { rewrite !count_char_append, fmt_d_no_nl. reflexivity. }
  split.
  - rewrite Hsplit, count_char_append, Htext. reflexivity.
  - exists ("Port " ++ fmt_d p ++ " open")%string. split; assumption.
Qed.

(** X2: two different ports are dialled at different addresses and are
    reported by different lines, so an address or a line of the output
    names one port only. *)
Theorem X2_distinct_ports_distinct_address_and_line (tgt : string) (p q : Z) :
  p <> q ->
  Sprintf_address tgt p <> Sprintf_address tgt q /\
  Sprintf_open p <> Sprintf_open q.
Proof.
  intros Hpq. split; intros Heq; apply Hpq.
  - exact (Sprintf_address_inj tgt p q Heq).
  - exact (Sprintf_open_inj p q Heq).
Qed.

Lemma X2_witness :
  22 <> 80 /\
  Sprintf_address target 22 <> Sprintf_address target 80 /\
  Sprintf_open 22 <> Sprintf_open 80.
Proof.
  split; [lia|].
  apply (X2_distinct_ports_distinct_address_and_line target 22 80).
  lia.
Defined.

(** ** The connections of a run *)

Section LoopProperties.

Context {W Conn : Type}.
Variable os : OS W Conn.

Lemma one_at_a_time_blocks (tgt : string) (timeout : Duration)
  (prs : list (Z * DialResult Conn)) :
  one_at_a_time None (flat_map (block tgt timeout) prs).
Proof.
  induction prs as [|[p [c|e]] prs IH]; [reflexivity| |];
    cbn [flat_map]; unfold block at 1; simpl; auto.
Qed.

(** X3: in a run, the program has at most one connection open at any
    time and leaves none open: it dials only when no connection is open,
    the connection it closes is the one the last dial returned, it closes
    it before the next dial, and it never closes a connection twice. *)
Theorem X3_one_connection_at_a_time_none_left_open (fuel : nat) (w : W) :
  (1006 <= fuel)%nat ->
  exists e, run os fuel w = Some e /\
    one_at_a_time None (trace (final e)).
Proof.
  intros H.
  destruct (run_blocks os _ w H) as (e & prs & Hrun & _ & _ & Htr & _).
  exists e. split; [exact Hrun|].
  rewrite Htr. apply one_at_a_time_blocks.
Qed.

End LoopProperties.

Lemma X3_witness :
  (1006 <= 1006)%nat /\
  exists e, run os_demo 1006 0%nat = Some e /\
    one_at_a_time None (trace (final e)).
Proof.
  split; [lia|].
  apply (X3_one_connection_at_a_time_none_left_open os_demo 1006 0%nat).
  lia.
Defined.
